(** * gonfig: locating, reading, unmarshaling and validating a configuration file

    A shallow embedding of the two revisions of package [gonfig]:
    - [gonfig.go] ([FindConfig], [ReadFoundConfig], [ReadConfig]; the
      validator is a function returning one [error]);
    - the revision with the [Validator] interface ([findConfig],
      [ReadConfig]; the validator returns a slice of errors).

    The Go code talks to the operating system ([os.Stat], [os.ReadFile]) and
    to two caller-supplied callbacks, and it writes to the configuration
    object through a pointer.  The embedding threads a state made of the
    pointee and of the log of the external calls made so far. *)

From Stdlib Require Import String List Bool Arith Lia.
Import ListNotations.
Open Scope list_scope.
Open Scope string_scope.

(** ** Go [error] values *)

(** A non-nil [error].  A nil [error] is [None] in [option error]. *)
Inductive error : Type :=
| Foreign (msg : string)                 (* made outside the package: os, unmarshal, validators *)
| errorString (text : string)            (* errors.New, and fmt.Errorf without %w *)
| wrapError (msg : string) (err : error) (* fmt.Errorf with a %w operand *).

(** [err.Error()] *)
Definition Error (e : error) : string :=
  match e with
  | Foreign msg => msg
  | errorString text => text
  | wrapError msg _ => msg
  end.

(** [errors.Unwrap(err)] *)
Definition Unwrap (e : error) : option error :=
  match e with
  | wrapError _ err => Some err
  | _ => None
  end.

(** [errors.New(text)] *)
Definition errors_New (text : string) : error := errorString text.

(** The pieces of a [fmt.Errorf] call: the literal text of the format and
    the operands of its [%s] and [%w] verbs, in the order of the format. *)
Inductive piece : Type :=
| Lit (text : string)
| verb_s (operand : string)
| verb_w (operand : error).

Definition render (p : piece) : string :=
  match p with
  | Lit text => text
  | verb_s operand => operand
  | verb_w operand => Error operand
  end.

Fixpoint sprint (ps : list piece) : string :=
  match ps with
  | [] => ""
  | p :: rest => render p ++ sprint rest
  end.

Fixpoint wrapped (ps : list piece) : option error :=
  match ps with
  | [] => None
  | verb_w operand :: _ => Some operand
  | _ :: rest => wrapped rest
  end.

(** [fmt.Errorf(format, operands...)] *)
Definition fmt_Errorf (ps : list piece) : error :=
  match wrapped ps with
  | Some err => wrapError (sprint ps) err
  | None => errorString (sprint ps)
  end.

(** [needle] occurs in [s]. *)
Definition occurs_in (needle s : string) : Prop :=
  exists before after, s = before ++ needle ++ after.

(** ** The operating system and the external calls *)

Definition bytes : Type := list Byte.byte.

(** What the two [os] functions answer for each name.  [os.Stat] returns
    [(FileInfo, error)]; the code discards the [FileInfo]. *)
Record filesystem : Type := Filesystem {
  stat : string -> option error;
  readFile : string -> bytes * option error
}.

Definition statable (fs : filesystem) (p : string) : bool :=
  match stat fs p with
  | None => true
  | Some _ => false
  end.

(** One entry of the log per call that leaves the package. *)
Inductive event : Type :=
| EvStat (name : string)
| EvReadFile (name : string)
| EvUnmarshal (content : bytes)
| EvValidate.

(** ** State passing *)

Section Machine.
Context {T : Type}.

  (** [target] is the object behind the pointer [c *T]; [trace] is the log. *)
Record state : Type := State {
    target : T;
    trace : list event
  }.

Definition M (A : Type) : Type := state -> A * state.

Definition ret {A : Type} (a : A) : M A := fun s => (a, s).

Definition bind {A B : Type} (c : M A) (k : A -> M B) : M B :=
    fun s => let (a, s') := c s in k a s'.

Definition record (evs : list event) (s : state) : state :=
    {| target := target s; trace := (trace s ++ evs)%list |}.

Definition emit (ev : event) : M unit := fun s => (tt, record [ev] s).

Variable fs : filesystem.

  (** [_, err = os.Stat(name)] *)
Definition os_Stat (name : string) : M (option error) :=
    bind (emit (EvStat name)) (fun _ => ret (stat fs name)).

  (** [content, err := os.ReadFile(name)] *)
Definition os_ReadFile (name : string) : M (bytes * option error) :=
    bind (emit (EvReadFile name)) (fun _ => ret (readFile fs name)).

  (** [err = unmarshal(content, c)]: the callback reads and writes [*c]. *)
Definition call_unmarshal (unmarshal : bytes -> T -> T * option error)
      (content : bytes) : M (option error) :=
    fun s =>
      let (c', err) := unmarshal content (target s) in
      (err, {| target := c'; trace := (trace s ++ [EvUnmarshal content])%list |}).

  (** [f( *c )] for a validator [f]: it is handed a copy of [*c]. *)
Definition call_validate {R : Type} (f : T -> R) : M R :=
    fun s => (f (target s), record [EvValidate] s).
End Machine.

Arguments state : clear implicits.
Arguments M : clear implicits.

Declare Scope go_scope.
Delimit Scope go_scope with go.
Notation "x <- c ;; k" := (bind c (fun x => k))
  (at level 61, c at next level, right associativity) : go_scope.
Notation "' pat <- c ;; k" := (bind c (fun x => match x with pat => k end))
  (at level 61, pat pattern, c at next level, right associativity) : go_scope.
Open Scope go_scope.

(** ** gonfig.go *)

Module gonfig.
Section Generic.
Context {T : Type}.
Variable fs : filesystem.

  (** [type UnmarshalFunc[T any] func([]byte, T) error], used at [*T]. *)
Definition UnmarshalFunc : Type := bytes -> T -> T * option error.

  (** [type ValidateFunc[T any] func(T) error] *)
Definition ValidateFunc : Type := T -> option error.

  (** The [for _, p := range paths] loop of [FindConfig]; [path] is the
      variable the loop assigns. *)
Fixpoint FindConfig_range (paths : list string) (path : string) : M T string :=
    match paths with
    | [] => ret path
    | p :: rest =>
        err <- os_Stat fs p ;;
        match err with
        | Some _ => FindConfig_range rest path
        | None => FindConfig_range rest p
        end
    end.

Definition FindConfig (path : string) (paths : list string)
      : M T (string * option error) :=
    if String.eqb path "" then
      path <- FindConfig_range paths path ;;
      if String.eqb path "" then
        ret ("", Some (errors_New "could not locate configuration file"))
      else
        ret (path, None)
    else
      err <- os_Stat fs path ;;
      match err with
      | Some err =>
          ret ("", Some (fmt_Errorf [Lit "could not stat configuration file ";
                                     verb_s path; Lit ": "; verb_w err]))
      | None => ret (path, None)
      end.

Definition ReadFoundConfig (path : string) (unmarshal : UnmarshalFunc)
      (validate : ValidateFunc) : M T (option error) :=
    ' (content, err) <- os_ReadFile fs path ;;
    match err with
    | Some err =>
        ret (Some (fmt_Errorf [Lit "unable to read configuration file ";
                               verb_s path; Lit ": "; verb_w err]))
    | None =>
        err <- call_unmarshal unmarshal content ;;
        match err with
        | Some err =>
            ret (Some (fmt_Errorf [Lit "unable to unmarshal configuration file ";
                                   verb_s path; Lit ": "; verb_w err]))
        | None => call_validate validate
        end
    end.

Definition ReadConfig (path : string) (searchPaths : list string)
      (unmarshal : UnmarshalFunc) (validate : ValidateFunc)
      : M T (string * option error) :=
    ' (path, err) <- FindConfig path searchPaths ;;
    match err with
    | Some err => ret ("", Some err)
    | None =>
        err <- ReadFoundConfig path unmarshal validate ;;
        ret (path, err)
    end.
End Generic.
End gonfig.

(** ** The revision with the [Validator] interface *)

Module gonfig_multi.

(** [type Validator[T any] interface { Validate(config T) []error }] *)
Class Validator (T V : Type) : Type :=
  Validate : V -> T -> list error.

Section Generic.
Context {T : Type}.
Variable fs : filesystem.

  (** The [for _, p := range paths] loop of [findConfig]. *)
Fixpoint findConfig_range (paths : list string) (path : string) : M T string :=
    match paths with
    | [] => ret path
    | p :: rest =>
        err <- os_Stat fs p ;;
        match err with
        | Some _ => findConfig_range rest path
        | None => findConfig_range rest p
        end
    end.

Definition findConfig (path : string) (paths : list string)
      : M T (string * option error) :=
    if String.eqb path "" then
      path <- findConfig_range paths path ;;
      if String.eqb path "" then
        ret ("", Some (errors_New "could not locate configuration file"))
      else
        ret (path, None)
    else
      err <- os_Stat fs path ;;
      match err with
      | Some err =>
          ret ("", Some (fmt_Errorf [Lit "could not stat configuration file ";
                                     verb_s path; Lit ": "; verb_w err]))
      | None => ret (path, None)
      end.

Definition ReadConfig {V : Type} `{Validator T V} (path : string)
      (paths : list string) (unmarshal : bytes -> T -> T * option error)
      (validator : V) : M T (string * list error) :=
    ' (path, err) <- findConfig path paths ;;
    match err with
    | Some err => ret ("", [err])
    | None =>
        ' (content, err) <- os_ReadFile fs path ;;
        match err with
        | Some err =>
            ret ("", [fmt_Errorf [Lit "unable to read configuration file ";
                                  verb_s path; Lit ": "; verb_w err]])
        | None =>
            err <- call_unmarshal unmarshal content ;;
            match err with
            | Some err =>
                ret ("", [fmt_Errorf [Lit "unable to unmarshal configuration file ";
                                      verb_s path; Lit ": "; verb_w err]])
            | None =>
                errs <- call_validate (Validate validator) ;;
                ret (path, errs)
            end
        end
    end.
End Generic.
End gonfig_multi.

(** ** A validator made of rules, and concrete data for running the code *)

(** A list of rules checked in order; every violation is reported. *)
Fixpoint check_all {T : Type} (rules : list (T -> option error)) (c : T) : list error :=
  match rules with
  | [] => []
  | rule :: rest =>
      match rule c with
      | Some err => err :: check_all rest c
      | None => check_all rest c
      end
  end.

#[export] Instance rules_Validator (T : Type)
  : gonfig_multi.Validator T (list (T -> option error)) := check_all.

Module demo.

Definition ENOENT : error := Foreign "no such file or directory".

Definition present : list string := ["/a"; "/b"; "/c"; "/etc/app/config.yml"].

Definition contents (name : string) : bytes :=
  if String.eqb name "/etc/app/config.yml" then [Byte.x38; Byte.x30] else [Byte.x37].

(** A disk holding exactly the files of [present]. *)
Definition disk : filesystem := {|
  stat := fun name =>
    if existsb (String.eqb name) present then None else Some ENOENT;
  readFile := fun name =>
    if existsb (String.eqb name) present then (contents name, None)
    else ([], Some ENOENT)
|}.

(** The same names answer to [os.Stat], but nothing can be read. *)
Definition unreadable : filesystem := {|
  stat := stat disk;
  readFile := fun _ => ([], Some (Foreign "permission denied"))
|}.

(** The configuration is a number; unmarshaling stores the first byte. *)
Definition first_byte : bytes -> nat -> nat * option error :=
  fun content c =>
    match content with
    | b :: _ => (Byte.to_nat b, None)
    | [] => (c, Some (Foreign "unexpected end of input"))
    end.

Definition never_parses : bytes -> nat -> nat * option error :=
  fun _ c => (0, Some (Foreign "syntax error")).

Definition accept : nat -> option error := fun _ => None.

Definition below (bound : nat) (what : string) : nat -> option error :=
  fun c => if Nat.ltb c bound then None else Some (Foreign what).

Definition start : state nat := {| target := 7; trace := [] |}.

End demo.

(** ** Vocabulary for statements about both revisions *)

(** The names the resolver hands to [os.Stat]: the fallback candidates when
    the explicit path is empty, the explicit path alone otherwise. *)
Definition candidates (path : string) (paths : list string) : list string :=
  if String.eqb path "" then paths else [path].

(** A possibly nil [error] seen as a slice of errors. *)
Definition error_list (err : option error) : list error :=
  match err with
  | Some e => [e]
  | None => []
  end.

(** * Running the code: what each function returns and logs *)

Ltac run := cbv [bind ret emit os_Stat os_ReadFile call_unmarshal call_validate].

Section Runs.
Context {T : Type}.
Variable fs : filesystem.
Implicit Types (s : state T) (path p : string) (paths : list string).

Lemma record_nil s : record [] s = s.
Proof. destruct s; unfold record; simpl; now rewrite app_nil_r. Qed.

Lemma record_record evs1 evs2 s :
  record evs2 (record evs1 s) = record (evs1 ++ evs2)%list s.
Proof. unfold record; simpl; now rewrite app_assoc. Qed.

Lemma target_record evs s : target (record evs s) = target s.
Proof. reflexivity. Qed.

Lemma trace_record evs s : trace (record evs s) = (trace s ++ evs)%list.
Proof. reflexivity. Qed.

Lemma last_cons_default (l : list string) : forall a d, last (a :: l) d = last l a.
Proof.
  induction l as [|b l IH]; intros a d; [reflexivity|].
  change (last (a :: b :: l) d) with (last (b :: l) d).
  now rewrite (IH b d), (IH b a).
Qed.

Lemma append_empty_r (x : string) : x ++ "" = x.
Proof. induction x as [|a x IH]; simpl; [reflexivity | now rewrite IH]. Qed.

(** [fmt.Errorf("<before>%s<between>%w", name, err)] *)
Lemma fmt_Errorf_s_w (before name between : string) (err : error) :
  fmt_Errorf [Lit before; verb_s name; Lit between; verb_w err]
  = wrapError (before ++ name ++ between ++ Error err) err.
Proof. unfold fmt_Errorf; simpl. now rewrite append_empty_r. Qed.

(** The loop leaves in [path] the last statable candidate, or what [path]
    held before when there is none, and it stats every candidate. *)
Lemma FindConfig_range_run paths : forall path s,
  gonfig.FindConfig_range fs paths path s
  = (last (filter (statable fs) paths) path, record (map EvStat paths) s).
Proof.
  induction paths as [|p rest IH]; intros path s.
  - simpl. unfold ret. now rewrite record_nil.
  - cbn [gonfig.FindConfig_range filter map]. run. unfold statable at 1.
    destruct (stat fs p) as [err|].
    + rewrite IH, record_record. reflexivity.
    + rewrite IH, record_record, last_cons_default. reflexivity.
Qed.

Lemma findConfig_range_same paths : forall path s,
  gonfig_multi.findConfig_range fs paths path s
  = gonfig.FindConfig_range fs paths path s.
Proof.
  induction paths as [|p rest IH]; intros path s; [reflexivity|].
  cbn [gonfig_multi.findConfig_range gonfig.FindConfig_range]. run.
  destruct (stat fs p); apply IH.
Qed.

(** The two revisions resolve paths alike. *)
Lemma findConfig_same path paths s :
  gonfig_multi.findConfig fs path paths s = gonfig.FindConfig fs path paths s.
Proof.
  unfold gonfig_multi.findConfig, gonfig.FindConfig.
  destruct (String.eqb path ""); [|reflexivity].
  unfold bind. now rewrite findConfig_range_same.
Qed.

Lemma FindConfig_explicit path paths s :
  path <> "" ->
  gonfig.FindConfig fs path paths s
  = (match stat fs path with
     | Some err =>
         ("", Some (wrapError ("could not stat configuration file "
                               ++ path ++ ": " ++ Error err) err))
     | None => (path, None)
     end, record [EvStat path] s).
Proof.
  intros Hne. unfold gonfig.FindConfig.
  apply String.eqb_neq in Hne. rewrite Hne. run.
  destruct (stat fs path); [rewrite fmt_Errorf_s_w|]; reflexivity.
Qed.

Lemma FindConfig_search paths s :
  gonfig.FindConfig fs "" paths s
  = (let found := last (filter (statable fs) paths) "" in
     if String.eqb found "" then
       ("", Some (errors_New "could not locate configuration file"))
     else (found, None),
     record (map EvStat paths) s).
Proof.
  unfold gonfig.FindConfig. cbn [String.eqb]. unfold bind at 1.
  rewrite FindConfig_range_run. cbv zeta.
  destruct (String.eqb _ ""); reflexivity.
Qed.

(** A successful resolution never yields the empty name. *)
Lemma FindConfig_ok_nonempty path paths s r s' :
  gonfig.FindConfig fs path paths s = ((r, None), s') -> r <> "".
Proof.
  destruct (String.eqb_spec path "") as [->|Hne].
  - rewrite FindConfig_search. cbv zeta.
    destruct (String.eqb_spec (last (filter (statable fs) paths) "") "");
      intros Heq; try discriminate Heq; injection Heq as <- _; assumption.
  - rewrite (FindConfig_explicit _ _ _ Hne).
    destruct (stat fs path);
      intros Heq; try discriminate Heq; injection Heq as <- _; assumption.
Qed.

(** A failed resolution yields the empty name. *)
Lemma FindConfig_failed_empty path paths s r err s' :
  gonfig.FindConfig fs path paths s = ((r, Some err), s') -> r = "".
Proof.
  destruct (String.eqb_spec path "") as [->|Hne].
  - rewrite FindConfig_search. cbv zeta.
    destruct (String.eqb _ "");
      intros Heq; try discriminate Heq; injection Heq as <- _ _; reflexivity.
  - rewrite (FindConfig_explicit _ _ _ Hne).
    destruct (stat fs path);
      intros Heq; try discriminate Heq; injection Heq as <- _ _; reflexivity.
Qed.

Lemma ReadFoundConfig_run path (unmarshal : gonfig.UnmarshalFunc)
    (validate : gonfig.ValidateFunc) s :
  gonfig.ReadFoundConfig fs path unmarshal validate s
  = match readFile fs path with
    | (_, Some err) =>
        (Some (wrapError ("unable to read configuration file "
                          ++ path ++ ": " ++ Error err) err),
         record [EvReadFile path] s)
    | (content, None) =>
        match unmarshal content (target s) with
        | (c', Some err) =>
            (Some (wrapError ("unable to unmarshal configuration file "
                              ++ path ++ ": " ++ Error err) err),
             {| target := c';
                trace := (trace s ++ [EvReadFile path; EvUnmarshal content])%list |})
        | (c', None) =>
            (validate c',
             {| target := c';
                trace := (trace s ++ [EvReadFile path; EvUnmarshal content;
                                      EvValidate])%list |})
        end
    end.
Proof.
  unfold gonfig.ReadFoundConfig. run.
  destruct (readFile fs path) as [content [err|]];
    [rewrite fmt_Errorf_s_w; reflexivity|].
  cbn [target trace record].
  destruct (unmarshal content (target s)) as [c' [err|]];
    unfold record; cbn [target trace]; rewrite <- !app_assoc, ?fmt_Errorf_s_w;
    reflexivity.
Qed.

Lemma ReadConfig_run path paths (unmarshal : gonfig.UnmarshalFunc)
    (validate : gonfig.ValidateFunc) s :
  gonfig.ReadConfig fs path paths unmarshal validate s
  = match gonfig.FindConfig fs path paths s with
    | ((_, Some err), s1) => (("", Some err), s1)
    | ((found, None), s1) =>
        let (err, s2) := gonfig.ReadFoundConfig fs found unmarshal validate s1 in
        ((found, err), s2)
    end.
Proof.
  unfold gonfig.ReadConfig. unfold bind at 1.
  destruct (gonfig.FindConfig fs path paths s) as [[found [err|]] s1];
    reflexivity.
Qed.

Lemma multi_ReadConfig_run {V : Type} `{gonfig_multi.Validator T V}
    path paths (unmarshal : bytes -> T -> T * option error) (validator : V) s :
  gonfig_multi.ReadConfig fs path paths unmarshal validator s
  = match gonfig.FindConfig fs path paths s with
    | ((_, Some err), s1) => (("", [err]), s1)
    | ((found, None), s1) =>
        match readFile fs found with
        | (_, Some err) =>
            (("", [wrapError ("unable to read configuration file "
                              ++ found ++ ": " ++ Error err) err]),
             record [EvReadFile found] s1)
        | (content, None) =>
            match unmarshal content (target s1) with
            | (c', Some err) =>
                (("", [wrapError ("unable to unmarshal configuration file "
                                  ++ found ++ ": " ++ Error err) err]),
                 {| target := c';
                    trace := (trace s1 ++ [EvReadFile found;
                                           EvUnmarshal content])%list |})
            | (c', None) =>
                ((found, gonfig_multi.Validate validator c'),
                 {| target := c';
                    trace := (trace s1 ++ [EvReadFile found; EvUnmarshal content;
                                           EvValidate])%list |})
            end
        end
    end.
Proof.
  unfold gonfig_multi.ReadConfig. unfold bind at 1.
  rewrite findConfig_same.
  destruct (gonfig.FindConfig fs path paths s) as [[found [err|]] s1];
    [reflexivity|].
  run. destruct (readFile fs found) as [content [err|]];
    [rewrite fmt_Errorf_s_w; reflexivity|].
  cbn [target trace record].
  destruct (unmarshal content (target s1)) as [c' [err|]];
    unfold record; cbn [target trace]; rewrite <- !app_assoc, ?fmt_Errorf_s_w;
    reflexivity.
Qed.
End Runs.

(** * The fallback scan *)

Section Scan.
Variable fs : filesystem.

Lemma filter_unstatable (paths : list string) :
  Forall (fun p => statable fs p = false) paths ->
  filter (statable fs) paths = [].
Proof.
  induction 1 as [|p rest Hp _ IH]; [reflexivity|].
  simpl. now rewrite Hp.
Qed.

(** A statable candidate with no statable candidate after it is the one
    the scan ends with. *)
Lemma last_statable_at (paths : list string) : forall j pj,
  nth_error paths j = Some pj ->
  statable fs pj = true ->
  (forall k p, j < k -> nth_error paths k = Some p -> statable fs p = false) ->
  forall d, last (filter (statable fs) paths) d = pj.
Proof.
  induction paths as [|a rest IH]; intros [|j] pj Hj Hs Hafter d;
    simpl in Hj; try discriminate.
  - injection Hj as ->. simpl. rewrite Hs, filter_unstatable; [reflexivity|].
    apply Forall_forall. intros p Hin.
    destruct (In_nth_error _ _ Hin) as [k Hk].
    apply (Hafter (S k) p); [lia | exact Hk].
  - assert (Hrest : forall d', last (filter (statable fs) rest) d' = pj).
    { apply (IH j); auto. intros k p Hlt Hk. apply (Hafter (S k) p); [lia | exact Hk]. }
    simpl. destruct (statable fs a); [rewrite last_cons_default|]; apply Hrest.
Qed.

Lemma last_in_or_default (l : list string) : forall d, last l d = d \/ In (last l d) l.
Proof.
  induction l as [|a l IH]; intros d; [now left|].
  rewrite last_cons_default. destruct (IH a) as [-> | Hin]; right;
    [now left | now right].
Qed.
End Scan.

(** * The path resolver *)

(** C1.  With an empty explicit path and a fallback list whose entries at
    indices [i < j] are both statable, [j] being the index of the last
    statable entry, the resolver returns the entry at index [j], not the one
    at index [i]: the scan does not stop at the first statable candidate,
    every candidate is stat-ed, in order, and the last statable one wins.
    [os.Stat] never accepts the empty name, which the filesystem of the
    model does not know: hence [pj <> ""].  Both revisions. *)
Theorem FindConfig_last_statable_wins {T : Type} (fs : filesystem)
    (paths : list string) (i j : nat) (pi pj : string) (s : state T) :
  i < j ->
  nth_error paths i = Some pi ->
  nth_error paths j = Some pj ->
  statable fs pi = true ->
  statable fs pj = true ->
  pj <> "" ->
  (forall k p, j < k -> nth_error paths k = Some p -> statable fs p = false) ->
  gonfig.FindConfig fs "" paths s = ((pj, None), record (map EvStat paths) s)
  /\ gonfig_multi.findConfig fs "" paths s
     = ((pj, None), record (map EvStat paths) s).
Proof.
  intros _ _ Hj _ Hsj Hne Hafter.
  apply String.eqb_neq in Hne.
  assert (Hrun : gonfig.FindConfig fs "" paths s
                 = ((pj, None), record (map EvStat paths) s)).
  { rewrite FindConfig_search. cbv zeta.
    rewrite (last_statable_at fs paths j pj Hj Hsj Hafter), Hne. reflexivity. }
  split; [exact Hrun | exact (eq_trans (findConfig_same fs "" paths s) Hrun)].
Qed.

Lemma FindConfig_last_statable_wins_witness :
  gonfig.FindConfig demo.disk ""
    ["/a"; "/missing/a.yml"; "/etc/app/config.yml"] demo.start
  = (("/etc/app/config.yml", None),
     {| target := 7;
        trace := [EvStat "/a"; EvStat "/missing/a.yml";
                  EvStat "/etc/app/config.yml"] |})
  /\ gonfig_multi.findConfig demo.disk ""
       ["/a"; "/missing/a.yml"; "/etc/app/config.yml"] demo.start
     = (("/etc/app/config.yml", None),
        {| target := 7;
           trace := [EvStat "/a"; EvStat "/missing/a.yml";
                     EvStat "/etc/app/config.yml"] |}).
Proof.
  apply (FindConfig_last_statable_wins demo.disk
           ["/a"; "/missing/a.yml"; "/etc/app/config.yml"] 0 2
           "/a" "/etc/app/config.yml" demo.start);
    try reflexivity; try lia; try discriminate.
  intros k p Hk. do 3 (destruct k as [|k]; [lia|]). destruct k; discriminate.
Defined.

(** C2.  A non-empty explicit path that stats successfully is returned
    unchanged, whatever the fallback list holds; the only call made is the
    stat of the explicit path, so no fallback candidate is looked at.  Both
    revisions. *)
Theorem FindConfig_explicit_statable {T : Type} (fs : filesystem)
    (path : string) (paths : list string) (s : state T) :
  path <> "" ->
  stat fs path = None ->
  gonfig.FindConfig fs path paths s = ((path, None), record [EvStat path] s)
  /\ gonfig_multi.findConfig fs path paths s
     = ((path, None), record [EvStat path] s).
Proof.
  intros Hne Hstat.
  assert (Hrun : gonfig.FindConfig fs path paths s
                 = ((path, None), record [EvStat path] s)).
  { rewrite (FindConfig_explicit fs path paths s Hne), Hstat. reflexivity. }
  split; [exact Hrun | exact (eq_trans (findConfig_same fs path paths s) Hrun)].
Qed.

Lemma FindConfig_explicit_statable_witness :
  gonfig.FindConfig demo.disk "/b" ["/a"; "/c"] demo.start
  = (("/b", None), {| target := 7; trace := [EvStat "/b"] |})
  /\ gonfig_multi.findConfig demo.disk "/b" ["/a"; "/c"] demo.start
     = (("/b", None), {| target := 7; trace := [EvStat "/b"] |}).
Proof.
  apply (FindConfig_explicit_statable demo.disk "/b" ["/a"; "/c"] demo.start);
    [discriminate | reflexivity].
Defined.

(** C3.  A non-empty explicit path whose stat fails with [err] makes the
    resolver fail with an error that wraps [err] and whose message contains
    the path; the only call made is that stat, for every fallback list.
    [ReadConfig] hands the error on with the empty name, without reading any
    file and without touching the target.  Both revisions. *)
Theorem FindConfig_explicit_unstatable {T V : Type}
    `{gonfig_multi.Validator T V} (fs : filesystem)
    (path : string) (paths : list string) (err : error)
    (unmarshal : bytes -> T -> T * option error)
    (validate : T -> option error) (validator : V) (s : state T) :
  path <> "" ->
  stat fs path = Some err ->
  let inaccessible :=
    wrapError ("could not stat configuration file " ++ path ++ ": " ++ Error err)
              err in
  gonfig.FindConfig fs path paths s
  = (("", Some inaccessible), record [EvStat path] s)
  /\ gonfig_multi.findConfig fs path paths s
     = (("", Some inaccessible), record [EvStat path] s)
  /\ Unwrap inaccessible = Some err
  /\ occurs_in path (Error inaccessible)
  /\ gonfig.ReadConfig fs path paths unmarshal validate s
     = (("", Some inaccessible), record [EvStat path] s)
  /\ gonfig_multi.ReadConfig fs path paths unmarshal validator s
     = (("", [inaccessible]), record [EvStat path] s).
Proof.
  intros Hne Hstat inaccessible.
  assert (Hrun : gonfig.FindConfig fs path paths s
                 = (("", Some inaccessible), record [EvStat path] s)).
  { rewrite (FindConfig_explicit fs path paths s Hne), Hstat. reflexivity. }
  repeat split.
  - exact Hrun.
  - exact (eq_trans (findConfig_same fs path paths s) Hrun).
  - exists "could not stat configuration file ", (": " ++ Error err).
    reflexivity.
  - rewrite ReadConfig_run, Hrun. reflexivity.
  - rewrite multi_ReadConfig_run, Hrun. reflexivity.
Qed.

Lemma FindConfig_explicit_unstatable_witness :
  gonfig.ReadConfig demo.disk "/bad/path.yml" ["/a"] demo.first_byte
    demo.accept demo.start
  = (("", Some (wrapError
        "could not stat configuration file /bad/path.yml: no such file or directory"
        demo.ENOENT)),
     {| target := 7; trace := [EvStat "/bad/path.yml"] |}).
Proof.
  apply (FindConfig_explicit_unstatable (V := list (nat -> option error))
           demo.disk "/bad/path.yml" ["/a"] demo.ENOENT demo.first_byte
           demo.accept [] demo.start);
    [discriminate | reflexivity].
Defined.

(** C4.  With an empty explicit path and no statable fallback candidate (in
    particular with no candidate at all) the resolver fails with the error
    made by [errors.New]: its message is a constant that names no path, it
    wraps nothing, and none of the stat errors met during the scan reaches
    the caller.  Every candidate is stat-ed.  Both revisions. *)
Theorem FindConfig_none_statable {T : Type} (fs : filesystem)
    (paths : list string) (s : state T) :
  Forall (fun p => statable fs p = false) paths ->
  let notfound := errors_New "could not locate configuration file" in
  gonfig.FindConfig fs "" paths s
  = (("", Some notfound), record (map EvStat paths) s)
  /\ gonfig_multi.findConfig fs "" paths s
     = (("", Some notfound), record (map EvStat paths) s)
  /\ Unwrap notfound = None
  /\ Error notfound = "could not locate configuration file".
Proof.
  intros Hnone notfound.
  assert (Hrun : gonfig.FindConfig fs "" paths s
                 = (("", Some notfound), record (map EvStat paths) s)).
  { rewrite FindConfig_search, (filter_unstatable fs paths Hnone). reflexivity. }
  repeat split; [exact Hrun|].
  exact (eq_trans (findConfig_same fs "" paths s) Hrun).
Qed.

Lemma FindConfig_none_statable_witness :
  gonfig.FindConfig demo.disk "" ["/missing/a.yml"; "/missing/b.yml"] demo.start
  = (("", Some (errorString "could not locate configuration file")),
     {| target := 7;
        trace := [EvStat "/missing/a.yml"; EvStat "/missing/b.yml"] |}).
Proof.
  apply (FindConfig_none_statable demo.disk
           ["/missing/a.yml"; "/missing/b.yml"] demo.start).
  repeat constructor.
Defined.

(** C8.  The resolver's result depends on its two arguments and on the
    outcome of [os.Stat] only: two calls with the same arguments, on
    filesystems that answer every stat alike, return the same result,
    whatever the states they start from (different targets, different
    histories, different file contents).  A call leaves the target as it
    was, and a second call made right after the first returns the same
    result.  Both revisions. *)
Theorem FindConfig_deterministic {T1 T2 : Type} (fs1 fs2 : filesystem)
    (path : string) (paths : list string) (s1 : state T1) (s2 : state T2) :
  (forall p, stat fs1 p = stat fs2 p) ->
  fst (gonfig.FindConfig fs1 path paths s1)
  = fst (gonfig.FindConfig fs2 path paths s2)
  /\ fst (gonfig_multi.findConfig fs1 path paths s1)
     = fst (gonfig_multi.findConfig fs2 path paths s2)
  /\ target (snd (gonfig.FindConfig fs1 path paths s1)) = target s1
  /\ target (snd (gonfig_multi.findConfig fs1 path paths s1)) = target s1
  /\ fst (gonfig.FindConfig fs1 path paths
            (snd (gonfig.FindConfig fs1 path paths s1)))
     = fst (gonfig.FindConfig fs1 path paths s1)
  /\ fst (gonfig_multi.findConfig fs1 path paths
            (snd (gonfig_multi.findConfig fs1 path paths s1)))
     = fst (gonfig_multi.findConfig fs1 path paths s1).
Proof.
  intros Hstat.
  assert (Hfilter : filter (statable fs1) paths = filter (statable fs2) paths).
  { apply filter_ext. intros p. unfold statable. now rewrite Hstat. }
  assert (Hruns : fst (gonfig.FindConfig fs1 path paths s1)
                  = fst (gonfig.FindConfig fs2 path paths s2)
                  /\ target (snd (gonfig.FindConfig fs1 path paths s1)) = target s1
                  /\ fst (gonfig.FindConfig fs1 path paths
                            (snd (gonfig.FindConfig fs1 path paths s1)))
                     = fst (gonfig.FindConfig fs1 path paths s1)).
  { destruct (String.eqb_spec path "") as [->|Hne].
    - rewrite !FindConfig_search; cbn [fst snd]. rewrite Hfilter.
      repeat split; reflexivity.
    - rewrite !(FindConfig_explicit _ path paths _ Hne); cbn [fst snd].
      rewrite Hstat. repeat split; reflexivity. }
  destruct Hruns as (Hres & Htarget & Hagain).
  pose proof (findConfig_same fs1 path paths s1) as E1.
  pose proof (findConfig_same fs2 path paths s2) as E2.
  pose proof (findConfig_same fs1 path paths
                (snd (gonfig.FindConfig fs1 path paths s1))) as E3.
  repeat split; congruence.
Qed.

Lemma FindConfig_deterministic_witness :
  fst (gonfig.FindConfig demo.disk "" ["/missing/a.yml"; "/a"] demo.start)
  = fst (gonfig.FindConfig demo.unreadable "" ["/missing/a.yml"; "/a"]
           {| target := true; trace := [EvValidate] |}).
Proof.
  apply (FindConfig_deterministic demo.disk demo.unreadable ""
           ["/missing/a.yml"; "/a"] demo.start
           {| target := true; trace := [EvValidate] |}).
  intros p. reflexivity.
Defined.

(** C9.  A path the resolver returns without error is the non-empty
    explicit path it was given or an element of the fallback list it was
    given.  Both revisions. *)
Theorem FindConfig_returns_given_path {T : Type} (fs : filesystem)
    (path : string) (paths : list string) (s s' : state T) (found : string) :
  gonfig.FindConfig fs path paths s = ((found, None), s')
  \/ gonfig_multi.findConfig fs path paths s = ((found, None), s') ->
  (path <> "" /\ found = path) \/ In found paths.
Proof.
  intros Hrun.
  assert (Hok : gonfig.FindConfig fs path paths s = ((found, None), s')).
  { destruct Hrun as [Hrun|Hrun]; [exact Hrun|].
    exact (eq_trans (eq_sym (findConfig_same fs path paths s)) Hrun). }
  clear Hrun. revert Hok.
  destruct (String.eqb_spec path "") as [->|Hne].
  - rewrite FindConfig_search. cbv zeta.
    destruct (String.eqb_spec (last (filter (statable fs) paths) "") "")
      as [Hempty|Hfound]; intros Heq; [discriminate Heq|].
    injection Heq as <- _. right.
    destruct (last_in_or_default (filter (statable fs) paths) "") as [Hd|Hin];
      [contradiction|].
    apply filter_In in Hin. exact (proj1 Hin).
  - rewrite (FindConfig_explicit fs path paths s Hne).
    destruct (stat fs path); intros Heq; [discriminate Heq|].
    injection Heq as <- _. left. split; [exact Hne | reflexivity].
Qed.

Lemma FindConfig_returns_given_path_witness :
  ("" <> "" /\ "/etc/app/config.yml" = "")
  \/ In "/etc/app/config.yml" ["/missing/a.yml"; "/etc/app/config.yml"].
Proof.
  apply (FindConfig_returns_given_path demo.disk ""
           ["/missing/a.yml"; "/etc/app/config.yml"] demo.start
           {| target := 7;
              trace := [EvStat "/missing/a.yml"; EvStat "/etc/app/config.yml"] |}
           "/etc/app/config.yml").
  left. reflexivity.
Defined.

(** * The loader *)

(** C5.  When the file at [path] is read and the unmarshal function fails
    with [err], [ReadFoundConfig] fails with an error that wraps [err] and
    whose message contains [path]; the calls made are the read and the
    unmarshal, so the validator is not called, whatever it is.  The
    [ReadConfig] of the revision with the [Validator] interface does the
    same with the path it resolved. *)
Theorem unmarshal_failure_skips_validation {T V : Type}
    `{gonfig_multi.Validator T V} (fs : filesystem)
    (path : string) (paths : list string) (found : string)
    (unmarshal : bytes -> T -> T * option error)
    (validate : T -> option error) (validator : V)
    (s s1 : state T) (content : bytes) (c' : T) (err : error) :
  readFile fs found = (content, None) ->
  let failure :=
    wrapError ("unable to unmarshal configuration file " ++ found ++ ": "
               ++ Error err) err in
  (unmarshal content (target s) = (c', Some err) ->
   gonfig.ReadFoundConfig fs found unmarshal validate s
   = (Some failure,
      {| target := c';
         trace := (trace s ++ [EvReadFile found; EvUnmarshal content])%list |}))
  /\ (gonfig_multi.findConfig fs path paths s = ((found, None), s1) ->
      unmarshal content (target s1) = (c', Some err) ->
      gonfig_multi.ReadConfig fs path paths unmarshal validator s
      = (("", [failure]),
         {| target := c';
            trace := (trace s1 ++ [EvReadFile found; EvUnmarshal content])%list |}))
  /\ Unwrap failure = Some err
  /\ occurs_in found (Error failure).
Proof.
  intros Hread failure. repeat split.
  - intros Hun. rewrite ReadFoundConfig_run, Hread, Hun. reflexivity.
  - intros Hfind Hun.
    pose proof (eq_trans (eq_sym (findConfig_same fs path paths s)) Hfind) as Hok.
    rewrite multi_ReadConfig_run, Hok, Hread, Hun. reflexivity.
  - exists "unable to unmarshal configuration file ", (": " ++ Error err).
    reflexivity.
Qed.

Lemma unmarshal_failure_skips_validation_witness :
  gonfig.ReadFoundConfig demo.disk "/etc/app/config.yml" demo.never_parses
    (demo.below 10 "too big") demo.start
  = (Some (wrapError
       "unable to unmarshal configuration file /etc/app/config.yml: syntax error"
       (Foreign "syntax error")),
     {| target := 0;
        trace := [EvReadFile "/etc/app/config.yml";
                  EvUnmarshal [Byte.x38; Byte.x30]] |}).
Proof.
  apply (unmarshal_failure_skips_validation (V := list (nat -> option error))
           demo.disk "" ["/etc/app/config.yml"] "/etc/app/config.yml"
           demo.never_parses (demo.below 10 "too big") [] demo.start
           (record [EvStat "/etc/app/config.yml"] demo.start)
           [Byte.x38; Byte.x30] 0 (Foreign "syntax error"));
    reflexivity.
Defined.

(** C6.  When the file is read, the unmarshal function succeeds leaving
    [c'] in the target, and the validator of [gonfig.go] accepts [c'],
    [ReadFoundConfig] returns no error and the target holds [c']: the
    package itself writes nothing to it. *)
Theorem ReadFoundConfig_success {T : Type} (fs : filesystem) (path : string)
    (unmarshal : bytes -> T -> T * option error) (validate : T -> option error)
    (s : state T) (content : bytes) (c' : T) :
  readFile fs path = (content, None) ->
  unmarshal content (target s) = (c', None) ->
  validate c' = None ->
  gonfig.ReadFoundConfig fs path unmarshal validate s
  = (None,
     {| target := c';
        trace := (trace s ++ [EvReadFile path; EvUnmarshal content;
                              EvValidate])%list |}).
Proof.
  intros Hread Hun Hvalid.
  rewrite ReadFoundConfig_run, Hread, Hun, Hvalid. reflexivity.
Qed.

Lemma ReadFoundConfig_success_witness :
  gonfig.ReadFoundConfig demo.disk "/etc/app/config.yml" demo.first_byte
    demo.accept demo.start
  = (None,
     {| target := 56;
        trace := [EvReadFile "/etc/app/config.yml";
                  EvUnmarshal [Byte.x38; Byte.x30]; EvValidate] |}).
Proof.
  apply (ReadFoundConfig_success demo.disk "/etc/app/config.yml"
           demo.first_byte demo.accept demo.start [Byte.x38; Byte.x30] 56);
    reflexivity.
Defined.

(** C7.  In the revision with the [Validator] interface, when resolution,
    read and unmarshal succeed, [ReadConfig] returns the resolved path and
    the very slice [Validate] returned for the unmarshaled object: same
    errors, same order, none wrapped or merged; an empty slice is
    success. *)
Theorem ReadConfig_returns_all_violations {T V : Type}
    `{gonfig_multi.Validator T V} (fs : filesystem)
    (path : string) (paths : list string) (found : string)
    (unmarshal : bytes -> T -> T * option error) (validator : V)
    (s s1 : state T) (content : bytes) (c' : T) :
  gonfig_multi.findConfig fs path paths s = ((found, None), s1) ->
  readFile fs found = (content, None) ->
  unmarshal content (target s1) = (c', None) ->
  gonfig_multi.ReadConfig fs path paths unmarshal validator s
  = ((found, gonfig_multi.Validate validator c'),
     {| target := c';
        trace := (trace s1 ++ [EvReadFile found; EvUnmarshal content;
                               EvValidate])%list |}).
Proof.
  intros Hfind Hread Hun.
  pose proof (eq_trans (eq_sym (findConfig_same fs path paths s)) Hfind) as Hok.
  rewrite multi_ReadConfig_run, Hok, Hread, Hun. reflexivity.
Qed.

Lemma ReadConfig_returns_all_violations_witness :
  gonfig_multi.ReadConfig demo.disk "" ["/missing/a.yml"; "/etc/app/config.yml"]
    demo.first_byte
    [demo.below 10 "too big"; demo.accept; demo.below 20 "way too big"]
    demo.start
  = (("/etc/app/config.yml", [Foreign "too big"; Foreign "way too big"]),
     {| target := 56;
        trace := [EvStat "/missing/a.yml"; EvStat "/etc/app/config.yml";
                  EvReadFile "/etc/app/config.yml";
                  EvUnmarshal [Byte.x38; Byte.x30]; EvValidate] |}).
Proof.
  refine (ReadConfig_returns_all_violations demo.disk ""
            ["/missing/a.yml"; "/etc/app/config.yml"] "/etc/app/config.yml"
            demo.first_byte
            [demo.below 10 "too big"; demo.accept; demo.below 20 "way too big"]
            demo.start
            (record [EvStat "/missing/a.yml"; EvStat "/etc/app/config.yml"]
                    demo.start)
            [Byte.x38; Byte.x30] 56 _ _ _);
    reflexivity.
Defined.

(** C10.  In both revisions, when resolution, read and unmarshal succeed
    and validation fails, [ReadConfig] returns the resolved path, which is
    not the empty name, next to the validation failure.  In [gonfig.go] the
    returned path is empty exactly when resolution failed; in the revision
    with the [Validator] interface it is empty exactly when resolution, the
    read or the unmarshal failed. *)
Theorem ReadConfig_returned_path {T V : Type}
    `{gonfig_multi.Validator T V} (fs : filesystem)
    (path : string) (paths : list string)
    (unmarshal : bytes -> T -> T * option error)
    (validate : T -> option error) (validator : V) (s : state T) :
  (forall found s1 content c' verr,
      gonfig.FindConfig fs path paths s = ((found, None), s1) ->
      readFile fs found = (content, None) ->
      unmarshal content (target s1) = (c', None) ->
      validate c' = Some verr ->
      fst (gonfig.ReadConfig fs path paths unmarshal validate s)
      = (found, Some verr)
      /\ found <> "")
  /\ (forall found s1 content c',
      gonfig_multi.findConfig fs path paths s = ((found, None), s1) ->
      readFile fs found = (content, None) ->
      unmarshal content (target s1) = (c', None) ->
      gonfig_multi.Validate validator c' <> [] ->
      fst (gonfig_multi.ReadConfig fs path paths unmarshal validator s)
      = (found, gonfig_multi.Validate validator c')
      /\ found <> "")
  /\ (fst (fst (gonfig.ReadConfig fs path paths unmarshal validate s)) = ""
      <-> snd (fst (gonfig.FindConfig fs path paths s)) <> None)
  /\ (fst (fst (gonfig_multi.ReadConfig fs path paths unmarshal validator s)) = ""
      <-> let '((found, err), s1) := gonfig_multi.findConfig fs path paths s in
          let '(content, rerr) := readFile fs found in
          let '(_, uerr) := unmarshal content (target s1) in
          err <> None
          \/ (err = None /\ rerr <> None)
          \/ (err = None /\ rerr = None /\ uerr <> None)).
Proof.
  split; [|split; [|split]].
  - intros found s1 content c' verr Hfind Hread Hun Hvalid.
    rewrite ReadConfig_run, Hfind, ReadFoundConfig_run, Hread, Hun, Hvalid.
    split; [reflexivity | exact (FindConfig_ok_nonempty fs _ _ _ _ _ Hfind)].
  - intros found s1 content c' Hfind Hread Hun _.
    pose proof (eq_trans (eq_sym (findConfig_same fs path paths s)) Hfind) as Hok.
    rewrite multi_ReadConfig_run, Hok, Hread, Hun.
    split; [reflexivity | exact (FindConfig_ok_nonempty fs _ _ _ _ _ Hok)].
  - rewrite ReadConfig_run.
    destruct (gonfig.FindConfig fs path paths s) as [[found [err|]] s1] eqn:Hfind;
      cbn [fst snd].
    + split; [discriminate | reflexivity].
    + destruct (gonfig.ReadFoundConfig fs found unmarshal validate s1); cbn [fst].
      split; [|intros Habs; now elim Habs].
      intros Hempty. elim (FindConfig_ok_nonempty fs _ _ _ _ _ Hfind Hempty).
  - rewrite multi_ReadConfig_run.
    rewrite (findConfig_same fs path paths s).
    destruct (gonfig.FindConfig fs path paths s) as [[found [err|]] s1] eqn:Hfind.
    + destruct (readFile fs found) as [content rerr].
      destruct (unmarshal content (target s1)) as [c' uerr]. cbn [fst].
      split; [intros _; left; discriminate | reflexivity].
    + pose proof (FindConfig_ok_nonempty fs _ _ _ _ _ Hfind) as Hne.
      destruct (readFile fs found) as [content [rerr|]].
      * destruct (unmarshal content (target s1)) as [c' uerr]. cbn [fst].
        split; [intros _; right; left; split; [reflexivity | discriminate]
               | reflexivity].
      * destruct (unmarshal content (target s1)) as [c' [uerr|]]; cbn [fst].
        -- split; [intros _; right; right; repeat split; discriminate
                  | reflexivity].
        -- split; [intros Hempty; contradiction|].
           intros [Habs | [[_ Habs] | (_ & _ & Habs)]]; now elim Habs.
Qed.

Lemma ReadConfig_returned_path_witness :
  (fst (gonfig.ReadConfig demo.disk "" ["/missing/a.yml"; "/etc/app/config.yml"]
          demo.first_byte (demo.below 10 "too big") demo.start)
   = ("/etc/app/config.yml", Some (Foreign "too big"))
   /\ "/etc/app/config.yml" <> "")
  /\ (fst (gonfig_multi.ReadConfig demo.disk ""
             ["/missing/a.yml"; "/etc/app/config.yml"] demo.first_byte
             [demo.below 10 "too big"; demo.below 20 "way too big"] demo.start)
      = ("/etc/app/config.yml", [Foreign "too big"; Foreign "way too big"])
      /\ "/etc/app/config.yml" <> "").
Proof.
  pose proof (ReadConfig_returned_path demo.disk ""
                ["/missing/a.yml"; "/etc/app/config.yml"] demo.first_byte
                (demo.below 10 "too big")
                [demo.below 10 "too big"; demo.below 20 "way too big"]
                demo.start) as (Hsingle & Hmulti & _).
  split.
  - apply (Hsingle "/etc/app/config.yml"
             (record [EvStat "/missing/a.yml"; EvStat "/etc/app/config.yml"]
                     demo.start)
             [Byte.x38; Byte.x30] 56 (Foreign "too big")); reflexivity.
  - apply (Hmulti "/etc/app/config.yml"
             (record [EvStat "/missing/a.yml"; EvStat "/etc/app/config.yml"]
                     demo.start)
             [Byte.x38; Byte.x30] 56); [reflexivity .. | discriminate].
Defined.

(** * Further properties of the code *)

Section More.
Context {T : Type}.
Variable fs : filesystem.
Implicit Types (s : state T) (path found : string) (paths : list string).

(** A successful resolution yields a name that [os.Stat] accepted. *)
Lemma FindConfig_ok_statable path paths s found s' :
  gonfig.FindConfig fs path paths s = ((found, None), s') -> stat fs found = None.
Proof.
  destruct (String.eqb_spec path "") as [->|Hne].
  - rewrite FindConfig_search. cbv zeta.
    destruct (String.eqb_spec (last (filter (statable fs) paths) "") "")
      as [Hempty|Hfound]; intros Heq; [discriminate Heq|].
    injection Heq as <- _.
    destruct (last_in_or_default (filter (statable fs) paths) "") as [Hd|Hin];
      [contradiction|].
    apply filter_In in Hin. destruct Hin as [_ Hst]. unfold statable in Hst.
    destruct (stat fs _); [discriminate Hst | reflexivity].
  - rewrite (FindConfig_explicit fs path paths s Hne).
    destruct (stat fs path) eqn:Hst; intros Heq; [discriminate Heq|].
    injection Heq as <- _. exact Hst.
Qed.

(** Whatever the outcome, the resolver only stats, and it stats exactly the
    names of [candidates], in order. *)
Lemma FindConfig_state path paths s :
  snd (gonfig.FindConfig fs path paths s)
  = record (map EvStat (candidates path paths)) s.
Proof.
  unfold candidates. destruct (String.eqb_spec path "") as [->|Hne].
  - rewrite FindConfig_search. reflexivity.
  - rewrite (FindConfig_explicit fs path paths s Hne). reflexivity.
Qed.

Lemma last_app_cons (l l' : list string) (a d : string) :
  last (l ++ a :: l') d = last (a :: l') d.
Proof.
  induction l as [|b l IH]; [reflexivity|].
  rewrite <- IH. cbn [app]. destruct (l ++ a :: l')%list eqn:E.
  - destruct l; discriminate E.
  - reflexivity.
Qed.

Lemma existsb_filter_nil (f : string -> bool) (l : list string) :
  existsb f l = false -> filter f l = [].
Proof.
  induction l as [|a l IH]; [reflexivity|]. simpl.
  destruct (f a); [discriminate | exact IH].
Qed.

Lemma existsb_filter_cons (f : string -> bool) (l : list string) :
  existsb f l = true -> exists a l', filter f l = a :: l'.
Proof.
  induction l as [|a l IH]; [discriminate|]. simpl.
  destruct (f a); [intros _; now exists a, (filter f l) | exact IH].
Qed.
End More.

(** ** Resolution *)

(** X1.  Whatever the answers of [os.Stat], the resolver makes stat calls
    only: one per fallback candidate, in list order, when the explicit path
    is empty, and a single one for the explicit path otherwise.  It leaves
    the target as it was.  Both revisions. *)
Theorem FindConfig_only_stats {T : Type} (fs : filesystem) (path : string)
    (paths : list string) (s : state T) :
  snd (gonfig.FindConfig fs path paths s)
  = record (map EvStat (candidates path paths)) s
  /\ snd (gonfig_multi.findConfig fs path paths s)
     = record (map EvStat (candidates path paths)) s.
Proof.
  split; [apply FindConfig_state|].
  exact (eq_trans (f_equal snd (findConfig_same fs path paths s))
                  (FindConfig_state fs path paths s)).
Qed.

(** X2.  A name the resolver returns without error is not empty and was
    accepted by [os.Stat].  Both revisions. *)
Theorem FindConfig_result_statable {T : Type} (fs : filesystem) (path : string)
    (paths : list string) (s s' : state T) (found : string) :
  gonfig.FindConfig fs path paths s = ((found, None), s')
  \/ gonfig_multi.findConfig fs path paths s = ((found, None), s') ->
  found <> "" /\ stat fs found = None.
Proof.
  intros Hrun.
  assert (Hok : gonfig.FindConfig fs path paths s = ((found, None), s')).
  { destruct Hrun as [Hrun|Hrun]; [exact Hrun|].
    exact (eq_trans (eq_sym (findConfig_same fs path paths s)) Hrun). }
  split.
  - exact (FindConfig_ok_nonempty fs path paths s found s' Hok).
  - exact (FindConfig_ok_statable fs path paths s found s' Hok).
Qed.

Lemma FindConfig_result_statable_witness :
  "/etc/app/config.yml" <> "" /\ stat demo.disk "/etc/app/config.yml" = None.
Proof.
  apply (FindConfig_result_statable demo.disk ""
           ["/missing/a.yml"; "/etc/app/config.yml"] demo.start
           (record [EvStat "/missing/a.yml"; EvStat "/etc/app/config.yml"]
                   demo.start)
           "/etc/app/config.yml").
  left. reflexivity.
Defined.

(** X3.  Resolution is stable: a name the resolver returned, given back as
    the explicit path, is returned again after one stat, for any fallback
    list and from any state.  Both revisions. *)
Theorem FindConfig_resolved_path_is_fixed {T : Type} (fs : filesystem)
    (path : string) (paths paths' : list string) (s s1 s2 : state T)
    (found : string) :
  gonfig.FindConfig fs path paths s = ((found, None), s1) ->
  gonfig.FindConfig fs found paths' s2 = ((found, None), record [EvStat found] s2)
  /\ gonfig_multi.findConfig fs found paths' s2
     = ((found, None), record [EvStat found] s2).
Proof.
  intros Hok.
  pose proof (FindConfig_ok_nonempty fs path paths s found s1 Hok) as Hne.
  pose proof (FindConfig_ok_statable fs path paths s found s1 Hok) as Hst.
  assert (Hrun : gonfig.FindConfig fs found paths' s2
                 = ((found, None), record [EvStat found] s2)).
  { rewrite (FindConfig_explicit fs found paths' s2 Hne), Hst. reflexivity. }
  split; [exact Hrun | exact (eq_trans (findConfig_same fs found paths' s2) Hrun)].
Qed.

Lemma FindConfig_resolved_path_is_fixed_witness :
  gonfig.FindConfig demo.disk "/c" ["/a"] demo.start
  = (("/c", None), {| target := 7; trace := [EvStat "/c"] |}).
Proof.
  apply (FindConfig_resolved_path_is_fixed demo.disk "" ["/b"; "/c"] ["/a"]
           demo.start (record [EvStat "/b"; EvStat "/c"] demo.start)
           demo.start "/c").
  reflexivity.
Defined.

(** X4.  Searching a concatenation of two fallback lists: when the second
    list holds a statable candidate the result is that of searching the
    second list alone, otherwise it is that of searching the first list
    alone.  Later candidates take precedence over earlier ones. *)
Theorem FindConfig_append {T : Type} (fs : filesystem)
    (paths1 paths2 : list string) (s : state T) :
  fst (gonfig.FindConfig fs "" (paths1 ++ paths2)%list s)
  = if existsb (statable fs) paths2
    then fst (gonfig.FindConfig fs "" paths2 s)
    else fst (gonfig.FindConfig fs "" paths1 s).
Proof.
  rewrite !FindConfig_search. cbn [fst]. rewrite filter_app.
  destruct (existsb (statable fs) paths2) eqn:Hany.
  - destruct (existsb_filter_cons _ _ Hany) as (a & l' & ->).
    now rewrite last_app_cons.
  - rewrite (existsb_filter_nil _ _ Hany), app_nil_r. reflexivity.
Qed.

(** X5.  Candidates that cannot be stat-ed have no influence on the
    search: two fallback lists with the same statable candidates in the
    same order resolve to the same result.  Both revisions. *)
Theorem FindConfig_unstatable_irrelevant {T : Type} (fs : filesystem)
    (paths paths' : list string) (s s' : state T) :
  filter (statable fs) paths = filter (statable fs) paths' ->
  fst (gonfig.FindConfig fs "" paths s) = fst (gonfig.FindConfig fs "" paths' s')
  /\ fst (gonfig_multi.findConfig fs "" paths s)
     = fst (gonfig_multi.findConfig fs "" paths' s').
Proof.
  intros Hsame.
  assert (Hrun : fst (gonfig.FindConfig fs "" paths s)
                 = fst (gonfig.FindConfig fs "" paths' s')).
  { rewrite !FindConfig_search. cbn [fst]. now rewrite Hsame. }
  split; [exact Hrun|].
  pose proof (findConfig_same fs "" paths s) as E1.
  pose proof (findConfig_same fs "" paths' s') as E2.
  congruence.
Qed.

Lemma FindConfig_unstatable_irrelevant_witness :
  fst (gonfig.FindConfig demo.disk "" ["/missing/a.yml"; "/a"; "/nowhere"; "/b"]
         demo.start)
  = fst (gonfig.FindConfig demo.disk "" ["/a"; "/b"; "/missing/b.yml"]
           demo.start).
Proof.
  apply (FindConfig_unstatable_irrelevant demo.disk
           ["/missing/a.yml"; "/a"; "/nowhere"; "/b"]
           ["/a"; "/b"; "/missing/b.yml"] demo.start demo.start).
  reflexivity.
Defined.

(** X6.  The resolver fails in two ways only, and always with the empty
    name: with an empty explicit path, the [errors.New] value that wraps
    nothing; with a non-empty explicit path, an error that wraps the stat
    error of that very path and names it.  Both revisions. *)
Theorem FindConfig_failure_kinds {T : Type} (fs : filesystem) (path : string)
    (paths : list string) (s s' : state T) (r : string) (e : error) :
  gonfig.FindConfig fs path paths s = ((r, Some e), s')
  \/ gonfig_multi.findConfig fs path paths s = ((r, Some e), s') ->
  r = ""
  /\ ((path = "" /\ e = errors_New "could not locate configuration file")
      \/ (path <> ""
          /\ exists cause,
               stat fs path = Some cause
               /\ e = wrapError ("could not stat configuration file " ++ path
                                 ++ ": " ++ Error cause) cause)).
Proof.
  intros Hrun.
  assert (Hfail : gonfig.FindConfig fs path paths s = ((r, Some e), s')).
  { destruct Hrun as [Hrun|Hrun]; [exact Hrun|].
    exact (eq_trans (eq_sym (findConfig_same fs path paths s)) Hrun). }
  split; [exact (FindConfig_failed_empty fs path paths s r e s' Hfail)|].
  revert Hfail. destruct (String.eqb_spec path "") as [->|Hne].
  - rewrite FindConfig_search. cbv zeta.
    destruct (String.eqb _ ""); intros Heq; [|discriminate Heq].
    injection Heq as _ <- _. left. split; reflexivity.
  - rewrite (FindConfig_explicit fs path paths s Hne).
    destruct (stat fs path) as [cause|]; intros Heq; [|discriminate Heq].
    injection Heq as _ <- _. right. split; [exact Hne|].
    exists cause. split; reflexivity.
Qed.

Lemma FindConfig_failure_kinds_witness :
  "" = ""
  /\ (("/bad/path.yml" = ""
       /\ wrapError
            "could not stat configuration file /bad/path.yml: no such file or directory"
            demo.ENOENT
          = errors_New "could not locate configuration file")
      \/ ("/bad/path.yml" <> ""
          /\ exists cause,
               stat demo.disk "/bad/path.yml" = Some cause
               /\ wrapError
                    "could not stat configuration file /bad/path.yml: no such file or directory"
                    demo.ENOENT
                  = wrapError ("could not stat configuration file "
                               ++ "/bad/path.yml" ++ ": " ++ Error cause) cause)).
Proof.
  apply (FindConfig_failure_kinds demo.disk "/bad/path.yml" ["/a"] demo.start
           (record [EvStat "/bad/path.yml"] demo.start)).
  left. reflexivity.
Defined.

(** X7.  The resolvers of the two revisions are the same function: same
    result, same calls, for every input. *)
Theorem findConfig_agrees_with_FindConfig {T : Type} (fs : filesystem)
    (path : string) (paths : list string) (s : state T) :
  gonfig_multi.findConfig fs path paths s = gonfig.FindConfig fs path paths s.
Proof. apply findConfig_same. Qed.

(** ** Loading *)

(** X8.  When [os.ReadFile] fails with [err] on the file to load, the
    failure wraps [err] and names the file; the read is the only call made,
    so neither callback runs and the target is untouched.  [ReadConfig] of
    [gonfig.go] returns the failure next to the resolved path, [ReadConfig]
    of the other revision next to the empty name, as the only element of
    the slice.  A file that passed the stat and cannot be read fails here,
    not in the resolver. *)
Theorem read_failure_stops_pipeline {T V : Type}
    `{gonfig_multi.Validator T V} (fs : filesystem)
    (path : string) (paths : list string) (found : string)
    (unmarshal : bytes -> T -> T * option error)
    (validate : T -> option error) (validator : V)
    (s s1 : state T) (content : bytes) (err : error) :
  readFile fs found = (content, Some err) ->
  let failure :=
    wrapError ("unable to read configuration file " ++ found ++ ": "
               ++ Error err) err in
  gonfig.ReadFoundConfig fs found unmarshal validate s
  = (Some failure, record [EvReadFile found] s)
  /\ (gonfig.FindConfig fs path paths s = ((found, None), s1) ->
      gonfig.ReadConfig fs path paths unmarshal validate s
      = ((found, Some failure), record [EvReadFile found] s1))
  /\ (gonfig_multi.findConfig fs path paths s = ((found, None), s1) ->
      gonfig_multi.ReadConfig fs path paths unmarshal validator s
      = (("", [failure]), record [EvReadFile found] s1))
  /\ Unwrap failure = Some err
  /\ occurs_in found (Error failure).
Proof.
  intros Hread failure.
  assert (Hfound : forall s0 : state T,
             gonfig.ReadFoundConfig fs found unmarshal validate s0
             = (Some failure, record [EvReadFile found] s0)).
  { intros s0. rewrite ReadFoundConfig_run, Hread. reflexivity. }
  split; [apply Hfound|]. split; [|split; [|split]].
  - intros Hfind. rewrite ReadConfig_run, Hfind, Hfound. reflexivity.
  - intros Hfind.
    pose proof (eq_trans (eq_sym (findConfig_same fs path paths s)) Hfind) as Hok.
    rewrite multi_ReadConfig_run, Hok, Hread. reflexivity.
  - reflexivity.
  - exists "unable to read configuration file ", (": " ++ Error err).
    reflexivity.
Qed.

Lemma read_failure_stops_pipeline_witness :
  gonfig.ReadFoundConfig demo.unreadable "/a" demo.first_byte demo.accept
    demo.start
  = (Some (wrapError "unable to read configuration file /a: permission denied"
                     (Foreign "permission denied")),
     {| target := 7; trace := [EvReadFile "/a"] |}).
Proof.
  apply (read_failure_stops_pipeline (V := list (nat -> option error))
           demo.unreadable "/a" [] "/a" demo.first_byte demo.accept []
           demo.start (record [EvStat "/a"] demo.start) []
           (Foreign "permission denied")).
  reflexivity.
Defined.

(** X9.  Once the file is read and unmarshaled, [gonfig.go] returns
    exactly what the validator returned: a rejection comes back as the
    validator's own error, not wrapped and without the file name added, and
    the target keeps the unmarshaled object even when it was rejected.
    [ReadConfig] pairs that verdict with the resolved path. *)
Theorem validator_verdict_is_returned {T : Type} (fs : filesystem)
    (path : string) (paths : list string) (found : string)
    (unmarshal : bytes -> T -> T * option error) (validate : T -> option error)
    (s s1 : state T) (content : bytes) (c' : T) :
  readFile fs found = (content, None) ->
  (unmarshal content (target s) = (c', None) ->
   gonfig.ReadFoundConfig fs found unmarshal validate s
   = (validate c',
      {| target := c';
         trace := (trace s ++ [EvReadFile found; EvUnmarshal content;
                               EvValidate])%list |}))
  /\ (gonfig.FindConfig fs path paths s = ((found, None), s1) ->
      unmarshal content (target s1) = (c', None) ->
      gonfig.ReadConfig fs path paths unmarshal validate s
      = ((found, validate c'),
         {| target := c';
            trace := (trace s1 ++ [EvReadFile found; EvUnmarshal content;
                                   EvValidate])%list |})).
Proof.
  intros Hread. split.
  - intros Hun. rewrite ReadFoundConfig_run, Hread, Hun. reflexivity.
  - intros Hfind Hun.
    rewrite ReadConfig_run, Hfind, ReadFoundConfig_run, Hread, Hun. reflexivity.
Qed.

Lemma validator_verdict_is_returned_witness :
  gonfig.ReadFoundConfig demo.disk "/etc/app/config.yml" demo.first_byte
    (demo.below 10 "too big") demo.start
  = (Some (Foreign "too big"),
     {| target := 56;
        trace := [EvReadFile "/etc/app/config.yml";
                  EvUnmarshal [Byte.x38; Byte.x30]; EvValidate] |}).
Proof.
  refine (proj1 (validator_verdict_is_returned demo.disk ""
                   ["/etc/app/config.yml"] "/etc/app/config.yml"
                   demo.first_byte (demo.below 10 "too big") demo.start
                   (record [EvStat "/etc/app/config.yml"] demo.start)
                   [Byte.x38; Byte.x30] 56 _) _);
    reflexivity.
Defined.

(** X10.  [ReadConfig] of [gonfig.go] returns a nil error only when every
    stage ran and succeeded: the returned name was resolved (so it is not
    empty and was stat-ed successfully), the file was read, the bytes read
    were unmarshaled without error into what the target now holds, and the
    validator accepted that object; the calls after the resolution are the
    read, the unmarshal and the validation, in this order. *)
Theorem ReadConfig_nil_error_means_all_stages {T : Type} (fs : filesystem)
    (path : string) (paths : list string)
    (unmarshal : bytes -> T -> T * option error) (validate : T -> option error)
    (s s' : state T) (p : string) :
  gonfig.ReadConfig fs path paths unmarshal validate s = ((p, None), s') ->
  exists s1 content,
    gonfig.FindConfig fs path paths s = ((p, None), s1)
    /\ p <> "" /\ stat fs p = None
    /\ readFile fs p = (content, None)
    /\ unmarshal content (target s1) = (target s', None)
    /\ validate (target s') = None
    /\ trace s' = (trace s1 ++ [EvReadFile p; EvUnmarshal content;
                                EvValidate])%list.
Proof.
  rewrite ReadConfig_run.
  destruct (gonfig.FindConfig fs path paths s) as [[found [err|]] s1] eqn:Hfind;
    [discriminate|].
  rewrite ReadFoundConfig_run.
  destruct (readFile fs found) as [content [rerr|]] eqn:Hread; [discriminate|].
  destruct (unmarshal content (target s1)) as [c' [uerr|]] eqn:Hun;
    [discriminate|].
  intros Heq. injection Heq as Hp Hvalid Hs'. subst p s'. cbn [target trace].
  exists s1, content. repeat split; try assumption; try reflexivity.
  - exact (FindConfig_ok_nonempty fs _ _ _ _ _ Hfind).
  - exact (FindConfig_ok_statable fs _ _ _ _ _ Hfind).
Qed.

Lemma ReadConfig_nil_error_means_all_stages_witness :
  exists s1 content,
    gonfig.FindConfig demo.disk "" ["/missing/a.yml"; "/etc/app/config.yml"]
      demo.start = (("/etc/app/config.yml", None), s1)
    /\ "/etc/app/config.yml" <> "" /\ stat demo.disk "/etc/app/config.yml" = None
    /\ readFile demo.disk "/etc/app/config.yml" = (content, None)
    /\ demo.first_byte content (target s1) = (56, None)
    /\ demo.accept 56 = None
    /\ [EvStat "/missing/a.yml"; EvStat "/etc/app/config.yml";
        EvReadFile "/etc/app/config.yml"; EvUnmarshal [Byte.x38; Byte.x30];
        EvValidate]
       = (trace s1 ++ [EvReadFile "/etc/app/config.yml"; EvUnmarshal content;
                       EvValidate])%list.
Proof.
  apply (ReadConfig_nil_error_means_all_stages demo.disk ""
           ["/missing/a.yml"; "/etc/app/config.yml"] demo.first_byte
           demo.accept demo.start
           {| target := 56;
              trace := [EvStat "/missing/a.yml"; EvStat "/etc/app/config.yml";
                        EvReadFile "/etc/app/config.yml";
                        EvUnmarshal [Byte.x38; Byte.x30]; EvValidate] |}
           "/etc/app/config.yml").
  reflexivity.
Defined.

(** X11.  [ReadConfig] of the revision with the [Validator] interface
    returns an empty slice only when every stage ran and succeeded: the
    name was resolved, the file read, the bytes unmarshaled without error
    into what the target now holds, and [Validate] reported nothing for
    that object. *)
Theorem multi_ReadConfig_no_errors_means_all_stages {T V : Type}
    `{gonfig_multi.Validator T V} (fs : filesystem)
    (path : string) (paths : list string)
    (unmarshal : bytes -> T -> T * option error) (validator : V)
    (s s' : state T) (p : string) :
  gonfig_multi.ReadConfig fs path paths unmarshal validator s = ((p, []), s') ->
  exists s1 content,
    gonfig_multi.findConfig fs path paths s = ((p, None), s1)
    /\ p <> "" /\ stat fs p = None
    /\ readFile fs p = (content, None)
    /\ unmarshal content (target s1) = (target s', None)
    /\ gonfig_multi.Validate validator (target s') = []
    /\ trace s' = (trace s1 ++ [EvReadFile p; EvUnmarshal content;
                                EvValidate])%list.
Proof.
  rewrite multi_ReadConfig_run.
  pose proof (findConfig_same fs path paths s) as Esame.
  destruct (gonfig.FindConfig fs path paths s) as [[found [err|]] s1] eqn:Hfind;
    [discriminate|].
  destruct (readFile fs found) as [content [rerr|]] eqn:Hread; [discriminate|].
  destruct (unmarshal content (target s1)) as [c' [uerr|]] eqn:Hun;
    [discriminate|].
  intros Heq. injection Heq as Hp Hvalid Hs'. subst p s'. cbn [target trace].
  exists s1, content. repeat split; try assumption; try reflexivity.
  - exact (FindConfig_ok_nonempty fs _ _ _ _ _ Hfind).
  - exact (FindConfig_ok_statable fs _ _ _ _ _ Hfind).
Qed.

Lemma multi_ReadConfig_no_errors_means_all_stages_witness :
  exists s1 content,
    gonfig_multi.findConfig demo.disk "" ["/etc/app/config.yml"] demo.start
    = (("/etc/app/config.yml", None), s1)
    /\ "/etc/app/config.yml" <> "" /\ stat demo.disk "/etc/app/config.yml" = None
    /\ readFile demo.disk "/etc/app/config.yml" = (content, None)
    /\ demo.first_byte content (target s1) = (56, None)
    /\ gonfig_multi.Validate [demo.below 100 "too big"] 56 = []
    /\ [EvStat "/etc/app/config.yml"; EvReadFile "/etc/app/config.yml";
        EvUnmarshal [Byte.x38; Byte.x30]; EvValidate]
       = (trace s1 ++ [EvReadFile "/etc/app/config.yml"; EvUnmarshal content;
                       EvValidate])%list.
Proof.
  apply (multi_ReadConfig_no_errors_means_all_stages demo.disk ""
           ["/etc/app/config.yml"] demo.first_byte [demo.below 100 "too big"]
           demo.start
           {| target := 56;
              trace := [EvStat "/etc/app/config.yml";
                        EvReadFile "/etc/app/config.yml";
                        EvUnmarshal [Byte.x38; Byte.x30]; EvValidate] |}
           "/etc/app/config.yml").
  reflexivity.
Defined.

(** X12.  The calls of one [ReadConfig], in both revisions and whatever
    the outcome: first the stats of the resolver, then a prefix of
    "read the resolved file, unmarshal the bytes read, validate".  So at
    most one file is read, it is the resolved one, each callback runs at
    most once, the unmarshal function is handed exactly the bytes read, and
    no stage runs unless the one before it ran. *)
Theorem ReadConfig_calls {T V : Type}
    `{gonfig_multi.Validator T V} (fs : filesystem)
    (path : string) (paths : list string)
    (unmarshal : bytes -> T -> T * option error)
    (validate : T -> option error) (validator : V) (s : state T) :
  let found := fst (fst (gonfig.FindConfig fs path paths s)) in
  let stages :=
    [EvReadFile found; EvUnmarshal (fst (readFile fs found)); EvValidate] in
  (exists n,
      trace (snd (gonfig.ReadConfig fs path paths unmarshal validate s))
      = (trace s ++ map EvStat (candidates path paths) ++ firstn n stages)%list)
  /\ (exists n,
      trace (snd (gonfig_multi.ReadConfig fs path paths unmarshal validator s))
      = (trace s ++ map EvStat (candidates path paths) ++ firstn n stages)%list).
Proof.
  intros found stages. subst found stages.
  rewrite ReadConfig_run, multi_ReadConfig_run.
  pose proof (FindConfig_state fs path paths s) as Hstate.
  destruct (gonfig.FindConfig fs path paths s) as [[found [err|]] s1].
  - cbn [fst snd] in *. subst s1.
    split; exists 0; cbn [firstn trace record]; now rewrite app_nil_r.
  - cbn [fst snd] in *. subst s1. rewrite ReadFoundConfig_run.
    destruct (readFile fs found) as [content [rerr|]]; cbn [fst snd].
    + split; exists 1; cbn [firstn trace record]; now rewrite <- app_assoc.
    + cbn [target record].
      destruct (unmarshal content (target s)) as [c' [uerr|]]; cbn [fst snd].
      * split; exists 2; cbn [firstn trace record]; now rewrite <- app_assoc.
      * split; exists 3; cbn [firstn trace record]; now rewrite <- app_assoc.
Qed.

(** X13.  The two revisions agree.  When the [Validator] reports exactly
    what the validation function of [gonfig.go] reports, both [ReadConfig]
    make the same calls and leave the same target, and the slice of the one
    holds the error of the other (empty for nil).  The names they return
    differ exactly when the name was resolved and the read or the unmarshal
    failed; the revision with the interface then returns the empty name,
    and in every other case both return the same name. *)
Theorem ReadConfig_revisions_agree {T V : Type}
    `{gonfig_multi.Validator T V} (fs : filesystem)
    (path : string) (paths : list string)
    (unmarshal : bytes -> T -> T * option error)
    (validate : T -> option error) (validator : V) (s : state T) :
  (forall c, gonfig_multi.Validate validator c = error_list (validate c)) ->
  let single := gonfig.ReadConfig fs path paths unmarshal validate s in
  let multi := gonfig_multi.ReadConfig fs path paths unmarshal validator s in
  snd (fst multi) = error_list (snd (fst single))
  /\ snd multi = snd single
  /\ (fst (fst multi) = fst (fst single) \/ fst (fst multi) = "")
  /\ (fst (fst multi) <> fst (fst single)
      <-> exists found s1 content,
            gonfig.FindConfig fs path paths s = ((found, None), s1)
            /\ (snd (readFile fs found) <> None
                \/ (readFile fs found = (content, None)
                    /\ snd (unmarshal content (target s1)) <> None))).
Proof.
  intros Hsame single multi. subst single multi.
  rewrite ReadConfig_run, multi_ReadConfig_run.
  destruct (gonfig.FindConfig fs path paths s) as [[found [err|]] s1] eqn:Hfind.
  - cbn [fst snd error_list]. repeat split; [now left | | ].
    + intros Hdiff. now elim Hdiff.
    + intros (found' & s1' & content & Habs & _). discriminate Habs.
  - pose proof (FindConfig_ok_nonempty fs _ _ _ _ _ Hfind) as Hne.
    rewrite ReadFoundConfig_run.
    destruct (readFile fs found) as [content [rerr|]] eqn:Hread.
    + cbn [fst snd error_list]. repeat split; [now right | | ].
      * intros _. exists found, s1, content. split; [reflexivity|].
        left. rewrite Hread. discriminate.
      * intros _ Hempty. apply Hne. now rewrite Hempty.
    + destruct (unmarshal content (target s1)) as [c' [uerr|]] eqn:Hun.
      * cbn [fst snd error_list]. repeat split; [now right | | ].
        -- intros _. exists found, s1, content. split; [reflexivity|].
           right. split; [exact Hread|]. rewrite Hun. discriminate.
        -- intros _ Hempty. apply Hne. now rewrite Hempty.
      * cbn [fst snd]. rewrite Hsame. repeat split; [now left | | ].
        -- intros Hdiff. now elim Hdiff.
        -- intros (found' & s1' & content' & Heq & Hfailed).
           injection Heq as <- <-.
           destruct Hfailed as [Hr | [Hr Hu]].
           ++ rewrite Hread in Hr. now elim Hr.
           ++ rewrite Hread in Hr. injection Hr as <-.
              rewrite Hun in Hu. now elim Hu.
Qed.

Lemma ReadConfig_revisions_agree_witness :
  snd (fst (gonfig_multi.ReadConfig demo.disk "" ["/etc/app/config.yml"]
              demo.first_byte [demo.below 10 "too big"] demo.start))
  = error_list
      (snd (fst (gonfig.ReadConfig demo.disk "" ["/etc/app/config.yml"]
                   demo.first_byte (demo.below 10 "too big") demo.start))).
Proof.
  apply (ReadConfig_revisions_agree demo.disk "" ["/etc/app/config.yml"]
           demo.first_byte (demo.below 10 "too big")
           [demo.below 10 "too big"] demo.start).
  intros c. unfold gonfig_multi.Validate, rules_Validator. cbn [check_all].
  destruct (demo.below 10 "too big" c); reflexivity.
Defined.

(** X14.  An empty returned name never comes with success: [ReadConfig] of
    [gonfig.go] pairs it with a non-nil error, and [ReadConfig] of the
    revision with the [Validator] interface pairs it with a slice of exactly
    one error.  A caller may test either the name or the error. *)
Theorem ReadConfig_empty_name_has_error {T V : Type}
    `{gonfig_multi.Validator T V} (fs : filesystem)
    (path : string) (paths : list string)
    (unmarshal : bytes -> T -> T * option error)
    (validate : T -> option error) (validator : V) (s : state T) :
  (fst (fst (gonfig.ReadConfig fs path paths unmarshal validate s)) = "" ->
   snd (fst (gonfig.ReadConfig fs path paths unmarshal validate s)) <> None)
  /\ (fst (fst (gonfig_multi.ReadConfig fs path paths unmarshal validator s)) = "" ->
      exists e,
        snd (fst (gonfig_multi.ReadConfig fs path paths unmarshal validator s))
        = [e]).
Proof.
  rewrite ReadConfig_run, multi_ReadConfig_run.
  destruct (gonfig.FindConfig fs path paths s) as [[found [err|]] s1] eqn:Hfind.
  - cbn [fst snd]. split; [discriminate | intros _; now exists err].
  - pose proof (FindConfig_ok_nonempty fs _ _ _ _ _ Hfind) as Hne.
    split.
    + destruct (gonfig.ReadFoundConfig fs found unmarshal validate s1).
      cbn [fst]. intros Hempty. contradiction.
    + destruct (readFile fs found) as [content [rerr|]];
        [cbn [fst snd]; intros _; eexists; reflexivity|].
      destruct (unmarshal content (target s1)) as [c' [uerr|]]; cbn [fst snd].
      * intros _. eexists. reflexivity.
      * intros Hempty. contradiction.
Qed.

Lemma ReadConfig_empty_name_has_error_witness :
  exists e,
    snd (fst (gonfig_multi.ReadConfig demo.unreadable "/a" [] demo.first_byte
                [demo.accept] demo.start))
    = [e].
Proof.
  apply (ReadConfig_empty_name_has_error demo.unreadable "/a" []
           demo.first_byte demo.accept [demo.accept] demo.start).
  reflexivity.
Defined.
